(** * Verification of the aggregation and ranking engine of discord_emoji_ranking

    Shallow embedding of [src/discord_emoji_ranking/module.py]:
    [_SortOrder], [_EmojiCountType], [_EmojiCounter], and the methods
    [EmojiRanking.count_emojis] and [EmojiRanking.sort_ranking].

    Messages, reactions and reacting users are modelled as already
    materialised data: the [async for] over [reaction.users()] is the list of
    users it yields. *)

From Stdlib Require Import List String Ascii Bool Arith ZArith Lia.
From Stdlib Require Import Sorting.Permutation Sorting.Sorted.
Import ListNotations.
Open Scope string_scope.

(** ** Data model *)

(** [class _SortOrder(Enum)] *)
Inductive _SortOrder := ASCENDING | DESCENDING.

(** [_SortOrder.reverse] *)
Definition reverse (value : _SortOrder) : bool :=
  match value with DESCENDING => true | ASCENDING => false end.

(** [class _EmojiCountType(Enum)]; the enum iterates its members in this
    order, which is also the insertion order of [_EmojiCounter._counts]. *)
Inductive _EmojiCountType := MESSAGE_CONTENT | MESSAGE_REACTION.

Definition all_count_types : list _EmojiCountType :=
  [MESSAGE_CONTENT; MESSAGE_REACTION].

(** A [discord.Emoji] of the guild catalog: its id and its name. *)
Record Emoji := mkEmoji { emoji_id : Z; emoji_name : string }.

(** The dict [{t: 0 for t in _EmojiCountType}]: one entry per enum member,
    created for all of them and only ever updated by [+= 1]. *)
Record Counts := mkCounts { cnt_content : nat; cnt_reaction : nat }.

Definition counts_get (d : Counts) (t : _EmojiCountType) : nat :=
  match t with
  | MESSAGE_CONTENT => cnt_content d
  | MESSAGE_REACTION => cnt_reaction d
  end.

(** [d[t] += 1] *)
Definition counts_incr (d : Counts) (t : _EmojiCountType) : Counts :=
  match t with
  | MESSAGE_CONTENT => mkCounts (S (cnt_content d)) (cnt_reaction d)
  | MESSAGE_REACTION => mkCounts (cnt_content d) (S (cnt_reaction d))
  end.

(** [d.values()] in insertion order. *)
Definition counts_values (d : Counts) : list nat :=
  map (counts_get d) all_count_types.

(** [class _EmojiCounter] *)
Record _EmojiCounter := mkCounter {
  _emoji : Emoji;
  _rank : nat;
  _counts : Counts
}.

(** [_EmojiCounter.__init__] *)
Definition new_counter (emoji : Emoji) : _EmojiCounter :=
  mkCounter emoji 0 (mkCounts 0 0).

(** [_EmojiCounter.increment] *)
Definition increment (c : _EmojiCounter) (t : _EmojiCountType) : _EmojiCounter :=
  mkCounter (_emoji c) (_rank c) (counts_incr (_counts c) t).

(** the [rank] setter *)
Definition set_rank (c : _EmojiCounter) (value : nat) : _EmojiCounter :=
  mkCounter (_emoji c) value (_counts c).

Definition content_count (c : _EmojiCounter) : nat :=
  counts_get (_counts c) MESSAGE_CONTENT.

Definition reaction_count (c : _EmojiCounter) : nat :=
  counts_get (_counts c) MESSAGE_REACTION.

(** [sum(self._counts.values())] *)
Definition total_count (c : _EmojiCounter) : nat :=
  fold_right Nat.add 0 (counts_values (_counts c)).

(** A user (message author or reactor): [.id] and [.bot]. *)
Record User := mkUser { user_id : Z; user_bot : bool }.

(** [reaction.emoji]: a [discord.Emoji] (with its id), or anything else
    ([discord.PartialEmoji] or a unicode [str]), which the counting skips. *)
Inductive ReactionEmoji :=
| RCustom (id : Z)
| RNotEmoji.

Record Reaction := mkReaction { r_emoji : ReactionEmoji; r_users : list User }.

Record Message := mkMessage {
  author : User;
  msg_content : string;
  reactions : list Reaction
}.

(** The fields of the [EmojiRanking] cog read by the engine. *)
Record EmojiRanking := mkCog {
  _order : _SortOrder;
  _contains_bot : bool;
  _user_ids : list Z
}.

(** ** Python helpers *)

(** [needle in hay] for strings: substring test. *)
Fixpoint str_contains (needle hay : string) : bool :=
  String.prefix needle hay ||
  match hay with
  | EmptyString => false
  | String _ t => str_contains needle t
  end.

(** [x in user_ids] for the set [set(self._user_ids)] *)
Definition mem (x : Z) (s : list Z) : bool := existsb (Z.eqb x) s.

(** [not user_ids] *)
Definition is_empty {A} (s : list A) : bool :=
  match s with [] => true | _ => false end.

(** ** [count_emojis] *)

Section Counting.

Variable self : EmojiRanking.

(** The reaction loop for one counter and one message. *)
Fixpoint count_reactions (user_ids : list Z) (counter : _EmojiCounter)
    (rs : list Reaction) : _EmojiCounter :=
  match rs with
  | [] => counter
  | reaction :: rs' =>
      match r_emoji reaction with
      | RNotEmoji => count_reactions user_ids counter rs'
      | RCustom id =>
          if negb (Z.eqb id (emoji_id (_emoji counter))) then
            count_reactions user_ids counter rs'
          else
            let users0 := r_users reaction in
            let users := if negb (is_empty user_ids)
                         then filter (fun u => mem (user_id u) user_ids) users0
                         else users0 in
            if is_empty users then count_reactions user_ids counter rs'
            else if negb (_contains_bot self) && forallb user_bot users
            then count_reactions user_ids counter rs'
            else count_reactions user_ids
                   (increment counter MESSAGE_REACTION) rs'
      end
  end.

(** The body of [for counter in counters:] for one message. *)
Definition count_message (user_ids : list Z) (message : Message)
    (counter : _EmojiCounter) : _EmojiCounter :=
  let author_matches :=
    is_empty user_ids || mem (user_id (author message)) user_ids in
  let counter :=
    if author_matches && str_contains (emoji_name (_emoji counter))
                                      (msg_content message)
    then if _contains_bot self || negb (user_bot (author message))
         then increment counter MESSAGE_CONTENT
         else counter
    else counter in
  count_reactions user_ids counter (reactions message).

(** [count_emojis(counters, messages)]: the counters built by [_execute]
    are distinct objects, and each one's update reads only its own emoji,
    so the list of counters is modelled by value. *)
Definition count_emojis (counters : list _EmojiCounter)
    (messages : list Message) : list _EmojiCounter :=
  let user_ids := _user_ids self in
  fold_left (fun cs message => map (count_message user_ids message) cs)
            messages counters.

(** [_execute] feeds one batch per readable channel:
    [counters = await self.count_emojis(counters, messages)]. *)
Definition count_batches (counters : list _EmojiCounter)
    (batches : list (list Message)) : list _EmojiCounter :=
  fold_left count_emojis batches counters.

(** Whether one reaction entry counts for the emoji with id [id]. *)
Definition reaction_counts (user_ids : list Z) (id : Z) (reaction : Reaction)
    : bool :=
  match r_emoji reaction with
  | RNotEmoji => false
  | RCustom rid =>
      let users := if negb (is_empty user_ids)
                   then filter (fun u => mem (user_id u) user_ids)
                               (r_users reaction)
                   else r_users reaction in
      Z.eqb rid id && negb (is_empty users)
      && negb (negb (_contains_bot self) && forallb user_bot users)
  end.

(** The text increment of one message for one counter. *)
Definition text_counts (user_ids : list Z) (message : Message) (name : string)
    : bool :=
  (is_empty user_ids || mem (user_id (author message)) user_ids)
  && str_contains name (msg_content message)
  && (_contains_bot self || negb (user_bot (author message))).

End Counting.

(** ** [sort_ranking] *)

(** The counters are Python objects: [sort_ranking] sorts references to
    them and writes their [rank].  References are modelled as [nat] and the
    object store as a total map from references to counters. *)
Definition Heap := nat -> _EmojiCounter.

Definition upd (h : Heap) (r : nat) (c : _EmojiCounter) : Heap :=
  fun r' => if Nat.eqb r r' then c else h r'.

(** [sorted(xs, key=key, reverse=rev)]: a stable sort; with [reverse=True]
    Python keeps elements with equal keys in their original order.
    [goes_before rev key y x] holds when [y] must precede [x]. *)
Definition goes_before {A} (rev : bool) (key : A -> nat) (y x : A) : bool :=
  if rev then Nat.ltb (key x) (key y) else Nat.ltb (key y) (key x).

(** [y] may precede [x] in a list sorted with [reverse=rev]. *)
Definition ordered {A} (rev : bool) (key : A -> nat) (y x : A) : Prop :=
  if rev then key x <= key y else key y <= key x.

Fixpoint insert_sorted {A} (rev : bool) (key : A -> nat) (x : A) (l : list A)
    : list A :=
  match l with
  | [] => [x]
  | y :: l' =>
      if goes_before rev key y x then y :: insert_sorted rev key x l'
      else x :: y :: l'
  end.

Fixpoint py_sorted {A} (rev : bool) (key : A -> nat) (l : list A) : list A :=
  match l with
  | [] => []
  | x :: l' => insert_sorted rev key x (py_sorted rev key l')
  end.

(** [xs[0:n]] for an [int] [n] (a negative bound counts from the end). *)
Definition py_slice_prefix {A} (l : list A) (n : Z) : list A :=
  let len := Z.of_nat (List.length l) in
  let stop := if (n <? 0)%Z then (n + len)%Z else n in
  firstn (Z.to_nat stop) l.

(** The loop [for index, counter in enumerate(sorted_counters):];
    [prev] is [sorted_counters[index - 1]] when [index > 0]. *)
Fixpoint assign_ranks (h : Heap) (prev : option nat) (index : nat)
    (l : list nat) : Heap :=
  match l with
  | [] => h
  | counter :: l' =>
      let rank :=
        match prev with
        | Some p =>
            if Nat.eqb (total_count (h p)) (total_count (h counter))
            then _rank (h p) else index + 1
        | None => index + 1
        end in
      assign_ranks (upd h counter (set_rank (h counter) rank))
                   (Some counter) (S index) l'
  end.

(** [sort_ranking(counters, slice_num)]: returns the list of references it
    returns and the store after its [rank] writes. *)
Definition sort_ranking (self : EmojiRanking) (h : Heap) (counters : list nat)
    (slice_num : Z) : list nat * Heap :=
  let rev := reverse (_order self) in
  let sorted_counters :=
    py_slice_prefix (py_sorted rev (fun r => total_count (h r)) counters)
                    slice_num in
  (sorted_counters, assign_ranks h None 0 sorted_counters).

(** [rank = max(1, min(self._rank, len(ctx.guild.emojis)))] in [_execute]. *)
Definition clamp_rank (rank : Z) (n : nat) : Z :=
  Z.max 1 (Z.min rank (Z.of_nat n)).

(** A store holding a list of counters at references [0 .. n-1], as built by
    [counters = [_EmojiCounter(emoji) for emoji in ctx.guild.emojis]]. *)
Definition heap_of (cs : list _EmojiCounter) : Heap :=
  fun r => nth r cs (new_counter (mkEmoji 0 "")).

(** ** Labels of the report *)

(** [f"{n}"] for a non-negative [int]: its decimal digits. *)
Fixpoint str_of_nat_fuel (fuel n : nat) : string :=
  match fuel with
  | O => ""
  | S f =>
      let d := String (ascii_of_nat (48 + n mod 10)) "" in
      if Nat.eqb (n / 10) 0 then d else (str_of_nat_fuel f (n / 10) ++ d)%string
  end.

Definition str_of_nat (n : nat) : string := str_of_nat_fuel (S n) n.

(** [_get_times_str] *)
Definition _get_times_str (count : nat) : string :=
  if Nat.eqb count 1 then "1 time" else (str_of_nat count ++ " times")%string.

(** [_get_rank_str] *)
Definition _get_rank_str (rank : nat) : string :=
  if Nat.eqb rank 1 then "1st"
  else if Nat.eqb rank 2 then "2nd"
  else if Nat.eqb rank 3 then "3rd"
  else (str_of_nat rank ++ "th")%string.

(** Reading a label back: the number its leading decimal digits spell. *)
Definition is_digit (c : ascii) : bool :=
  Nat.leb 48 (nat_of_ascii c) && Nat.leb (nat_of_ascii c) 57.

Fixpoint fold_digits (acc : nat) (s : string) : nat :=
  match s with
  | EmptyString => acc
  | String c t => fold_digits (acc * 10 + (nat_of_ascii c - 48)) t
  end.

Fixpoint leading_number (acc : nat) (s : string) : nat :=
  match s with
  | EmptyString => acc
  | String c t =>
      if is_digit c then leading_number (acc * 10 + (nat_of_ascii c - 48)) t
      else acc
  end.

(** ** [_parse_legacy_args] *)

(** [s.partition(sep)] for a one-character separator: the part before the
    first [sep], [sep] itself, and the rest; [(s, "", "")] when [sep] does
    not occur. *)
Fixpoint partition_at (sep : ascii) (s : string) : string * string * string :=
  match s with
  | EmptyString => (EmptyString, EmptyString, EmptyString)
  | String x t =>
      if ascii_dec x sep then (EmptyString, String sep EmptyString, t)
      else let '(a, b, c) := partition_at sep t in (String x a, b, c)
  end.

(** A [Dict[str, str]] as an association list in insertion order:
    [d[k] = v] overwrites an existing key in place, else appends. *)
Definition Dict := list (string * string).

Fixpoint dict_set (d : Dict) (k v : string) : Dict :=
  match d with
  | [] => [(k, v)]
  | (k', v') :: d' =>
      if String.eqb k k' then (k, v) :: d' else (k', v') :: dict_set d' k v
  end.

(** [d.get(k)] *)
Fixpoint dict_get (d : Dict) (k : string) : option string :=
  match d with
  | [] => None
  | (k', v') :: d' => if String.eqb k k' then Some v' else dict_get d' k
  end.

(** One iteration of the loop of [_parse_legacy_args]. *)
Definition parse_legacy_step (parsed : Dict) (arg : string) : Dict :=
  if negb (str_contains "=" arg) then parsed
  else
    let '(key, _, value) := partition_at "=" arg in
    if String.eqb key "" then parsed else dict_set parsed key value.

Definition _parse_legacy_args (raw_args : list string) : Dict :=
  fold_left parse_legacy_step raw_args [].

(** [_SortOrder.parse] *)
Definition parse_order (value : string) : _SortOrder :=
  if String.eqb value "ascending" then ASCENDING else DESCENDING.

(** [_SortOrder.parse(args.get("order", ""))] in [_parse_args]. *)
Definition order_of_args (args : Dict) : _SortOrder :=
  parse_order (match dict_get args "order" with Some v => v | None => "" end).

(** ** [_execute]: channels and the per-channel counting loop *)

(** A guild channel: its id and whether it is a [discord.TextChannel]. *)
Record Channel := mkChannel { ch_id : Z; ch_is_text : bool }.

(** [ctx.guild]: its channels and its custom emojis. *)
Record Guild := mkGuild { g_channels : list Channel; g_emojis : list Emoji }.

(** [ctx.guild.get_channel(channel_id)] *)
Definition get_channel (g : Guild) (channel_id : Z) : option Channel :=
  find (fun c => Z.eqb (ch_id c) channel_id) (g_channels g).

(** [channels = [...get_channel... ] if len(self._channel_ids) > 0 else
    ctx.guild.channels], then kept when not [None] and a text channel. *)
Definition select_channels (g : Guild) (channel_ids : list Z) : list Channel :=
  let channels :=
    if Nat.ltb 0 (List.length channel_ids)
    then map (get_channel g) channel_ids
    else map Some (g_channels g) in
  flat_map (fun o => match o with
                     | Some c => if ch_is_text c then [c] else []
                     | None => []
                     end) channels.

(** [channel.history(...)] collected into a list, or [None] when it raises
    [discord.Forbidden]; the time window is fixed for one run. *)
Definition History := Channel -> option (list Message).

(** [for channel in channels: try ... except discord.Forbidden: ... else:
    counters = await self.count_emojis(counters, messages)] *)
Definition count_channels (self : EmojiRanking) (history : History)
    (counters : list _EmojiCounter) (channels : list Channel)
    : list _EmojiCounter :=
  fold_left (fun cs channel =>
               match history channel with
               | None => cs
               | Some messages => count_emojis self cs messages
               end) channels counters.

(** The counters [_execute] hands to [sort_ranking]. *)
Definition execute_counts (self : EmojiRanking) (g : Guild)
    (channel_ids : list Z) (history : History) : list _EmojiCounter :=
  count_channels self history (map new_counter (g_emojis g))
                 (select_channels g channel_ids).

(** ** [emoji_ranking]: the slash-command options as an argument dict *)

(** The option values: [str], [int] ([rank]) or [bool] ([bot]). *)
Inductive PyValue := PyStr (s : string) | PyInt (z : Z) | PyBool (b : bool).

(** [str(int)] *)
Definition str_of_Z (z : Z) : string :=
  if (z <? 0)%Z then ("-" ++ str_of_nat (Z.to_nat (- z)))%string
  else str_of_nat (Z.to_nat z).

(** [str(value)] *)
Definition py_str (v : PyValue) : string :=
  match v with
  | PyStr s => s
  | PyInt z => str_of_Z z
  | PyBool b => if b then "True" else "False"
  end.

(** [set_arg(key, value)]: skips [None] and [""]. *)
Definition set_arg (args : Dict) (key : string) (value : option PyValue) : Dict :=
  match value with
  | None => args
  | Some (PyStr EmptyString) => args
  | Some v => dict_set args key (py_str v)
  end.

(** The [args] dict built by [emoji_ranking] from its options. *)
Definition slash_args (channel before after order : option string)
    (rank : option Z) (bot : option bool) (user : option string) : Dict :=
  let args := set_arg [] "channel" (option_map PyStr channel) in
  let args := set_arg args "before" (option_map PyStr before) in
  let args := set_arg args "after" (option_map PyStr after) in
  let args := set_arg args "order" (option_map PyStr order) in
  let args := match rank with
              | Some r => set_arg args "rank" (Some (PyInt r))
              | None => args
              end in
  let args := match bot with
              | Some b => set_arg args "bot" (Some (PyBool b))
              | None => args
              end in
  set_arg args "user" (option_map PyStr user).

(** ** [bot.py]: choosing the token *)

Inductive BotOutcome := BotRun (token : string) | BotNoToken.

(** [token = os.environ.get("DISCORD_TOKEN")]; [if not token:] fall back to
    [DISCORD_BOT_TOKEN]; [if token: bot.run(token)] else print an error. *)
Definition bot_main (environ : Dict) : BotOutcome :=
  let truthy (o : option string) :=
    match o with Some EmptyString | None => false | Some _ => true end in
  let token := dict_get environ "DISCORD_TOKEN" in
  let token := if negb (truthy token) then dict_get environ "DISCORD_BOT_TOKEN"
               else token in
  match token with
  | Some t => if truthy (Some t) then BotRun t else BotNoToken
  | None => BotNoToken
  end.

(** ** Concrete data for the examples of the spec *)

Definition counter_with (id : Z) (name : string) (total : nat) : _EmojiCounter :=
  mkCounter (mkEmoji id name) 0 (mkCounts total 0).

(** Catalog [A, B, C, D] with totals [5, 5, 3, 1] and [5, 5, 5, 1]. *)
Definition abcd (t : list nat) : list _EmojiCounter :=
  [counter_with 1 "A" (nth 0 t 0); counter_with 2 "B" (nth 1 t 0);
   counter_with 3 "C" (nth 2 t 0); counter_with 4 "D" (nth 3 t 0)].

Definition cog (o : _SortOrder) : EmojiRanking := mkCog o false [].

(** names and ranks of the returned counters *)
Definition ranking_view (res : list nat * Heap) : list (string * nat) :=
  map (fun r => (emoji_name (_emoji (snd res r)), _rank (snd res r))) (fst res).

(** Users, messages and a cog configuration for the counting examples. *)
Definition human (id : Z) : User := mkUser id false.
Definition botu (id : Z) : User := mkUser id true.

Definition cog_no_bots : EmojiRanking := mkCog DESCENDING false [].

(** A message whose text names every emoji of [abcd] twice. *)
Definition msg_all_names (a : User) : Message :=
  mkMessage a "A B C D A B C D" [].

(** A message with one reaction with emoji [A], applied by two bots and one
    human. *)
Definition msg_react_two_bots : Message :=
  mkMessage (human 10) "" [mkReaction (RCustom 1) [botu 20; botu 21; human 22]].

Definition msgA : Message :=
  mkMessage (human 10) "A A" [mkReaction (RCustom 2) [human 11]].
Definition msgB : Message :=
  mkMessage (botu 20) "B" [mkReaction (RCustom 1) [botu 21]].
Definition msgC : Message :=
  mkMessage (human 11) "C and A" [mkReaction (RCustom 3) [botu 21; human 10]].

(** ** The examples of the spec, evaluated *)

Example ex_desc_4 :
  ranking_view (sort_ranking (cog DESCENDING) (heap_of (abcd [5;5;3;1]))
                             [0;1;2;3] 4)
  = [("A",1); ("B",1); ("C",3); ("D",4)].
Proof. reflexivity. Qed.

Example ex_asc_4 :
  ranking_view (sort_ranking (cog ASCENDING) (heap_of (abcd [5;5;3;1]))
                             [0;1;2;3] 4)
  = [("D",1); ("C",2); ("A",3); ("B",3)].
Proof. reflexivity. Qed.

Example ex_trunc :
  ranking_view (sort_ranking (cog DESCENDING) (heap_of (abcd [5;5;5;1]))
                             [0;1;2;3] 2)
  = [("A",1); ("B",1)].
Proof. reflexivity. Qed.

(** ** Lemmas on the Python helpers *)

Lemma prefix_spec (n h : string) :
  String.prefix n h = true <-> exists s, h = (n ++ s)%string.
Proof.
  revert h; induction n as [|a n IH]; intros h; simpl.
  - split; [intros _; exists h; reflexivity | destruct h; reflexivity].
  - destruct h as [|b h].
    + split; [discriminate | intros [s Hs]; discriminate].
    + cbn [String.prefix]. destruct (ascii_dec a b) as [Heq|Hab]; [subst b|].
      * rewrite IH. split; intros [s Hs]; exists s;
          [rewrite Hs; reflexivity | injection Hs; auto].
      * split; [discriminate | intros [s Hs]; injection Hs; intros; congruence].
Qed.

Lemma str_contains_spec (n h : string) :
  str_contains n h = true <-> exists p s, h = (p ++ n ++ s)%string.
Proof.
  induction h as [|b h IH]; cbn [str_contains].
  - rewrite orb_false_r, prefix_spec. split.
    + intros [s Hs]. exists EmptyString, s. exact Hs.
    + intros [p [s Hs]]. destruct p as [|c p]; [exists s; exact Hs|discriminate].
  - rewrite orb_true_iff, prefix_spec, IH. split.
    + intros [[s Hs]|[p [s Hs]]].
      * exists EmptyString, s. exact Hs.
      * exists (String b p), s. rewrite Hs. reflexivity.
    + intros [p [s Hs]]. destruct p as [|c p].
      * left. exists s. exact Hs.
      * right. injection Hs as -> Hs. exists p, s. exact Hs.
Qed.

Lemma length_filter_sum {A} (f : A -> bool) (l : list A) :
  List.length (filter f l) = fold_right Nat.add 0 (map (fun x => if f x then 1 else 0) l).
Proof. induction l as [|x l IH]; simpl; [|destruct (f x); simpl]; auto. Qed.

Lemma mem_spec (x : Z) (s : list Z) : mem x s = true <-> In x s.
Proof.
  unfold mem. rewrite existsb_exists. split.
  - intros [y [Hy Heq]]. apply Z.eqb_eq in Heq. subst. exact Hy.
  - intros Hx. exists x. split; [exact Hx | apply Z.eqb_refl].
Qed.

Lemma is_empty_spec {A} (s : list A) : is_empty s = true <-> s = [].
Proof. destruct s; simpl; split; congruence. Qed.

(** ** Lemmas on one counting step *)

Section CountingFacts.

Variable self : EmojiRanking.

Lemma count_reactions_eq (user_ids : list Z) (c : _EmojiCounter)
    (rs : list Reaction) :
  count_reactions self user_ids c rs =
  mkCounter (_emoji c) (_rank c)
    (mkCounts (cnt_content (_counts c))
       (cnt_reaction (_counts c)
        + List.length (filter (reaction_counts self user_ids (emoji_id (_emoji c))) rs))).
Proof.
  revert c; induction rs as [|r rs IH]; intros c; simpl.
  - destruct c as [e k [a b]]; simpl. rewrite Nat.add_0_r. reflexivity.
  - unfold reaction_counts at 1.
    destruct (r_emoji r) as [rid|]; [|apply IH].
    destruct (Z.eqb rid (emoji_id (_emoji c))) eqn:Hid; simpl;
      [|apply IH].
    set (users := if negb (is_empty user_ids) then _ else _).
    destruct (is_empty users); simpl; [apply IH|].
    destruct (negb (_contains_bot self) && forallb user_bot users); simpl;
      [apply IH|].
    rewrite IH. destruct c as [e k [a b]]; simpl.
    rewrite Nat.add_succ_r. reflexivity.
Qed.

Lemma count_message_eq (user_ids : list Z) (m : Message) (c : _EmojiCounter) :
  count_message self user_ids m c =
  mkCounter (_emoji c) (_rank c)
    (mkCounts
       (cnt_content (_counts c)
        + (if text_counts self user_ids m (emoji_name (_emoji c)) then 1 else 0))
       (cnt_reaction (_counts c)
        + List.length (filter (reaction_counts self user_ids (emoji_id (_emoji c)))
                              (reactions m)))).
Proof.
  unfold count_message, text_counts.
  destruct ((is_empty user_ids || mem (user_id (author m)) user_ids)
            && str_contains (emoji_name (_emoji c)) (msg_content m));
    simpl; [destruct (_contains_bot self || negb (user_bot (author m))); simpl|];
    rewrite count_reactions_eq; destruct c as [e k [a b]]; simpl;
    f_equal; f_equal; lia.
Qed.

Lemma text_counts_spec (m : Message) (name : string) :
  text_counts self (_user_ids self) m name = true <->
  (exists p s, msg_content m = (p ++ name ++ s)%string)
  /\ (_user_ids self = [] \/ In (user_id (author m)) (_user_ids self))
  /\ (_contains_bot self = true \/ user_bot (author m) = false).
Proof.
  unfold text_counts.
  rewrite !andb_true_iff, !orb_true_iff, is_empty_spec, mem_spec,
    str_contains_spec, negb_true_iff.
  tauto.
Qed.

End CountingFacts.


(** ** Theorems on the counting pass *)

Lemma count_emojis_one (self : EmojiRanking) (cs : list _EmojiCounter)
    (m : Message) :
  count_emojis self cs [m] = map (count_message self (_user_ids self) m) cs.
Proof. reflexivity. Qed.

Lemma nth_error_count_one (self : EmojiRanking) (cs : list _EmojiCounter)
    (m : Message) (i : nat) (c : _EmojiCounter) :
  nth_error cs i = Some c ->
  nth_error (count_emojis self cs [m]) i
  = Some (count_message self (_user_ids self) m c).
Proof. intros H. rewrite count_emojis_one, nth_error_map, H. reflexivity. Qed.

(** C2: the reaction tally of a catalog counter grows, for one message, by
    one per reaction entry whose emoji is a [discord.Emoji] with the
    counter's id and whose user list, narrowed to [_user_ids] when that is
    non-empty, is non-empty and not made only of bots while bots are
    excluded; the number of users applying an entry does not matter. *)
Theorem count_emojis_reaction_entry (self : EmojiRanking)
    (cs : list _EmojiCounter) (m : Message) (i : nat) (c : _EmojiCounter) :
  nth_error cs i = Some c ->
  exists c',
    nth_error (count_emojis self cs [m]) i = Some c' /\
    reaction_count c' =
    reaction_count c +
    fold_right Nat.add 0
      (map (fun r =>
              let narrowed :=
                if is_empty (_user_ids self) then r_users r
                else filter (fun u => mem (user_id u) (_user_ids self))
                            (r_users r) in
              if (match r_emoji r with
                  | RCustom rid => Z.eqb rid (emoji_id (_emoji c))
                  | RNotEmoji => false
                  end)
                 && negb (is_empty narrowed)
                 && negb (negb (_contains_bot self) && forallb user_bot narrowed)
              then 1 else 0)
           (reactions m)).
Proof.
  intros H. eexists. split; [apply nth_error_count_one; exact H|].
  rewrite count_message_eq. unfold reaction_count. simpl. f_equal.
  rewrite length_filter_sum. f_equal. apply map_ext. intros r.
  unfold reaction_counts.
  destruct (r_emoji r) as [rid|]; [|reflexivity].
  destruct (is_empty (_user_ids self)); reflexivity.
Qed.

(** C5: with bots excluded, a message authored by a bot adds no text
    occurrence to any counter. *)
Theorem count_emojis_bot_author_no_text (self : EmojiRanking)
    (cs : list _EmojiCounter) (m : Message) :
  _contains_bot self = false ->
  user_bot (author m) = true ->
  map content_count (count_emojis self cs [m]) = map content_count cs.
Proof.
  intros Hb Ha. rewrite count_emojis_one, map_map.
  apply map_ext. intros c. rewrite count_message_eq.
  unfold content_count, text_counts. simpl. rewrite Hb, Ha.
  rewrite !andb_false_r. apply Nat.add_0_r.
Qed.

(** C6: for one message, a counter's text tally grows by exactly one when
    its emoji's name is a substring of the message text, the author passes
    the [_user_ids] filter and the bot guard passes, and stays the same
    otherwise, however many times the name occurs. *)
Theorem count_emojis_text_occurrence (self : EmojiRanking)
    (cs : list _EmojiCounter) (m : Message) (i : nat) (c : _EmojiCounter) :
  nth_error cs i = Some c ->
  exists c',
    nth_error (count_emojis self cs [m]) i = Some c' /\
    (content_count c' = S (content_count c) <->
       (exists p s, msg_content m = (p ++ emoji_name (_emoji c) ++ s)%string)
       /\ (_user_ids self = [] \/ In (user_id (author m)) (_user_ids self))
       /\ (_contains_bot self = true \/ user_bot (author m) = false)) /\
    (content_count c' = content_count c \/
     content_count c' = S (content_count c)).
Proof.
  intros H. eexists. split; [apply nth_error_count_one; exact H|].
  rewrite count_message_eq. unfold content_count. simpl.
  rewrite <- text_counts_spec.
  destruct (text_counts self (_user_ids self) m (emoji_name (_emoji c)));
    split; lia || (split; [discriminate | lia]).
Qed.

Lemma count_emojis_reaction_entry_witness :
  exists c',
    nth_error (count_emojis cog_no_bots (abcd [0;0;0;0]) [msg_react_two_bots]) 0
    = Some c' /\ reaction_count c' = 1.
Proof.
  destruct (count_emojis_reaction_entry cog_no_bots (abcd [0;0;0;0])
              msg_react_two_bots 0 (counter_with 1 "A" 0) eq_refl)
    as [c' [H1 H2]].
  exists c'. split; [exact H1|]. rewrite H2. reflexivity.
Defined.

Lemma count_emojis_bot_author_no_text_witness :
  map content_count (count_emojis cog_no_bots (abcd [0;0;0;0])
                       [msg_all_names (botu 20)]) = [0;0;0;0].
Proof.
  rewrite (count_emojis_bot_author_no_text cog_no_bots (abcd [0;0;0;0])
             (msg_all_names (botu 20)) eq_refl eq_refl).
  reflexivity.
Defined.

Lemma count_emojis_text_occurrence_witness :
  exists c',
    nth_error (count_emojis cog_no_bots (abcd [0;0;0;0])
                 [msg_all_names (human 10)]) 2 = Some c'
    /\ content_count c' = 1.
Proof.
  destruct (count_emojis_text_occurrence cog_no_bots (abcd [0;0;0;0])
              (msg_all_names (human 10)) 2 (counter_with 3 "C" 0) eq_refl)
    as [c' [H1 [H2 _]]].
  exists c'. split; [exact H1|].
  apply H2. split; [|split; [left; reflexivity | right; reflexivity]].
  exists "A B "%string, " D A B C D"%string. reflexivity.
Defined.

(** ** Batches *)

Lemma count_message_comm (self : EmojiRanking) (uids : list Z)
    (m1 m2 : Message) (c : _EmojiCounter) :
  count_message self uids m1 (count_message self uids m2 c) =
  count_message self uids m2 (count_message self uids m1 c).
Proof.
  rewrite !count_message_eq. simpl. f_equal. f_equal; lia.
Qed.

Lemma fold_left_perm_comm {A B} (f : A -> B -> A)
    (Hf : forall a x y, f (f a x) y = f (f a y) x) (l1 l2 : list B) :
  Permutation l1 l2 -> forall a, fold_left f l1 a = fold_left f l2 a.
Proof.
  induction 1 as [|x l1 l2 _ IH|x y l|l1 l2 l3 _ IH1 _ IH2]; intros a; simpl.
  - reflexivity.
  - apply IH.
  - rewrite Hf. reflexivity.
  - rewrite IH1. apply IH2.
Qed.

(** Each counter is updated on its own, message after message. *)
Lemma count_emojis_map (self : EmojiRanking) (cs : list _EmojiCounter)
    (ms : list Message) :
  count_emojis self cs ms =
  map (fun c => fold_left (fun c m => count_message self (_user_ids self) m c)
                          ms c) cs.
Proof.
  unfold count_emojis. revert cs; induction ms as [|m ms IH]; intros cs; simpl.
  - symmetry. apply map_id.
  - rewrite IH, map_map. reflexivity.
Qed.

Lemma count_batches_concat (self : EmojiRanking) (cs : list _EmojiCounter)
    (bs : list (list Message)) :
  count_batches self cs bs = count_emojis self cs (List.concat bs).
Proof.
  unfold count_batches. revert cs; induction bs as [|b bs IH]; intros cs; simpl.
  - reflexivity.
  - rewrite IH. unfold count_emojis. rewrite fold_left_app. reflexivity.
Qed.

(** C7: feeding the same messages through the counting pass in any
    partition into batches and in any order gives the same counters. *)
Theorem count_batches_perm_invariant (self : EmojiRanking)
    (cs : list _EmojiCounter) (b1 b2 : list (list Message)) :
  Permutation (List.concat b1) (List.concat b2) ->
  count_batches self cs b1 = count_batches self cs b2.
Proof.
  intros Hp. rewrite !count_batches_concat, !count_emojis_map.
  apply map_ext. intros c. apply fold_left_perm_comm; [|exact Hp].
  intros a x y. apply count_message_comm.
Qed.

Lemma count_batches_perm_invariant_witness :
  count_batches cog_no_bots (abcd [0;0;0;0]) [[msgA; msgB]; [msgC]]
  = count_batches cog_no_bots (abcd [0;0;0;0]) [[msgC]; [msgA; msgB]; []].
Proof.
  apply count_batches_perm_invariant.
  exact (Permutation_app_comm [msgA; msgB] [msgC]).
Defined.

(** ** Tallies *)

Lemma count_message_mono (self : EmojiRanking) (uids : list Z) (m : Message)
    (c : _EmojiCounter) :
  content_count c <= content_count (count_message self uids m c) /\
  reaction_count c <= reaction_count (count_message self uids m c).
Proof. rewrite count_message_eq. unfold content_count, reaction_count. simpl. lia. Qed.

(** C8: every counter's total is the sum of its two tallies, and the
    tallies never decrease: not by one [increment], not by a counting pass
    over any sequence of batches. *)
Theorem counter_tallies_invariant (self : EmojiRanking) :
  (forall (cs : list _EmojiCounter) (bs : list (list Message)),
     Forall (fun c => total_count c = content_count c + reaction_count c)
            (count_batches self cs bs)) /\
  (forall (c : _EmojiCounter) (t : _EmojiCountType),
     content_count c <= content_count (increment c t) /\
     reaction_count c <= reaction_count (increment c t) /\
     content_count (increment c t) + reaction_count (increment c t)
     = S (content_count c + reaction_count c)) /\
  (forall (cs : list _EmojiCounter) (bs : list (list Message)),
     Forall2 (fun c c' => content_count c <= content_count c' /\
                          reaction_count c <= reaction_count c')
             cs (count_batches self cs bs)).
Proof.
  split; [|split].
  - intros cs bs. apply Forall_forall. intros c _.
    unfold total_count, counts_values, content_count, reaction_count. simpl.
    lia.
  - intros c t. destruct t; unfold content_count, reaction_count; simpl; lia.
  - intros cs bs. rewrite count_batches_concat, count_emojis_map.
    induction cs as [|c cs IH]; simpl; constructor; [|exact IH].
    generalize (List.concat bs). intros ms. revert c.
    induction ms as [|m ms IHm]; intros c; simpl; [lia|].
    destruct (count_message_mono self (_user_ids self) m c).
    destruct (IHm (count_message self (_user_ids self) m c)). lia.
Qed.

(** ** The stable sort *)

Section Sorting.

Context {A : Type} (rev : bool) (key : A -> nat).

Lemma insert_sorted_perm (x : A) (l : list A) :
  Permutation (x :: l) (insert_sorted rev key x l).
Proof.
  induction l as [|y l IH]; simpl; [reflexivity|].
  destruct (goes_before rev key y x); [|reflexivity].
  rewrite <- IH. apply perm_swap.
Qed.

Lemma py_sorted_perm (l : list A) : Permutation l (py_sorted rev key l).
Proof.
  induction l as [|x l IH]; simpl; [reflexivity|].
  rewrite <- insert_sorted_perm. constructor. exact IH.
Qed.

Lemma goes_before_ordered (y x : A) :
  goes_before rev key y x = true -> ordered rev key y x.
Proof.
  unfold goes_before, ordered. destruct rev; rewrite Nat.ltb_lt; lia.
Qed.

Lemma not_goes_before_ordered (y x : A) :
  goes_before rev key y x = false -> ordered rev key x y.
Proof.
  unfold goes_before, ordered. destruct rev; rewrite Nat.ltb_ge; lia.
Qed.

Lemma insert_sorted_hd (y x : A) (l : list A) :
  HdRel (ordered rev key) y l -> ordered rev key y x ->
  HdRel (ordered rev key) y (insert_sorted rev key x l).
Proof.
  intros Hh Hyx. destruct l as [|z l]; simpl.
  - constructor. exact Hyx.
  - destruct (goes_before rev key z x); constructor; [inversion Hh; auto | exact Hyx].
Qed.

Lemma insert_sorted_sorted (x : A) (l : list A) :
  Sorted (ordered rev key) l -> Sorted (ordered rev key) (insert_sorted rev key x l).
Proof.
  induction l as [|y l IH]; intros Hs; simpl.
  - repeat constructor.
  - destruct (goes_before rev key y x) eqn:E.
    + inversion Hs; subst. constructor; [auto|].
      apply insert_sorted_hd; [assumption|]. apply goes_before_ordered. exact E.
    + constructor; [exact Hs|]. constructor. apply not_goes_before_ordered. exact E.
Qed.

Lemma py_sorted_sorted (l : list A) : Sorted (ordered rev key) (py_sorted rev key l).
Proof.
  induction l as [|x l IH]; simpl; [constructor|].
  apply insert_sorted_sorted. exact IH.
Qed.

(** Elements with equal keys keep their relative order. *)
Lemma insert_sorted_filter (k : nat) (x : A) (l : list A) :
  filter (fun a => Nat.eqb (key a) k) (insert_sorted rev key x l) =
  if Nat.eqb (key x) k then x :: filter (fun a => Nat.eqb (key a) k) l
  else filter (fun a => Nat.eqb (key a) k) l.
Proof.
  induction l as [|y l IH]; simpl.
  - destruct (Nat.eqb (key x) k); reflexivity.
  - destruct (goes_before rev key y x) eqn:E; simpl.
    + rewrite IH.
      destruct (Nat.eqb (key x) k) eqn:Ex, (Nat.eqb (key y) k) eqn:Ey;
        try reflexivity.
      apply Nat.eqb_eq in Ex, Ey. unfold goes_before in E.
      destruct rev; apply Nat.ltb_lt in E; lia.
    + destruct (Nat.eqb (key x) k); reflexivity.
Qed.

Lemma py_sorted_stable (k : nat) (l : list A) :
  filter (fun a => Nat.eqb (key a) k) (py_sorted rev key l) =
  filter (fun a => Nat.eqb (key a) k) l.
Proof.
  induction l as [|x l IH]; simpl; [reflexivity|].
  rewrite insert_sorted_filter, IH. reflexivity.
Qed.

End Sorting.

Lemma NoDup_firstn {A} (n : nat) (l : list A) : NoDup l -> NoDup (firstn n l).
Proof.
  intros H. rewrite <- (firstn_skipn n l) in H.
  apply NoDup_app_remove_r in H. exact H.
Qed.

(** ** Rank assignment *)

Lemma set_rank_eta (c : _EmojiCounter) : set_rank c (_rank c) = c.
Proof. destruct c; reflexivity. Qed.

Lemma total_count_set_rank (c : _EmojiCounter) (k : nat) :
  total_count (set_rank c k) = total_count c.
Proof. reflexivity. Qed.

Lemma assign_ranks_notin (h : Heap) (prev : option nat) (idx : nat)
    (l : list nat) (r : nat) :
  ~ In r l -> assign_ranks h prev idx l r = h r.
Proof.
  revert h prev idx; induction l as [|c l IH]; intros h prev idx Hr; simpl;
    [reflexivity|].
  rewrite IH by (simpl in Hr; tauto). unfold upd.
  destruct (Nat.eqb c r) eqn:E; [|reflexivity].
  apply Nat.eqb_eq in E. simpl in Hr. tauto.
Qed.

Lemma assign_ranks_only_rank (h : Heap) (prev : option nat) (idx : nat)
    (l : list nat) (r : nat) :
  assign_ranks h prev idx l r = set_rank (h r) (_rank (assign_ranks h prev idx l r)).
Proof.
  revert h prev idx; induction l as [|c l IH]; intros h prev idx; simpl.
  - symmetry. apply set_rank_eta.
  - rewrite IH at 1. unfold upd.
    destruct (Nat.eqb c r) eqn:E; [|reflexivity].
    apply Nat.eqb_eq in E. subst. reflexivity.
Qed.

(** The rank written at position [i] of the loop: [index + 1], or the rank
    of the predecessor when the totals are equal. *)
Lemma assign_ranks_spec (l : list nat) :
  forall (h : Heap) (prev : option nat) (idx : nat),
  NoDup l ->
  (forall p, prev = Some p -> ~ In p l) ->
  forall i r, nth_error l i = Some r ->
  _rank (assign_ranks h prev idx l r) =
  match (match i with O => prev | S j => nth_error l j end) with
  | None => idx + i + 1
  | Some p =>
      if Nat.eqb (total_count (h p)) (total_count (h r))
      then _rank (assign_ranks h prev idx l p) else idx + i + 1
  end.
Proof.
  induction l as [|c l IH]; intros h prev idx Hnd Hprev i r Hi;
    [destruct i; discriminate|].
  inversion Hnd as [|? ? Hc Hnd']; subst.
  simpl assign_ranks.
  set (h1 := upd h c _).
  assert (Hh1 : forall x, total_count (h1 x) = total_count (h x)).
  { intros x. unfold h1, upd. destruct (Nat.eqb c x) eqn:E; [|reflexivity].
    apply Nat.eqb_eq in E. subst. reflexivity. }
  destruct i as [|j].
  - simpl in Hi. injection Hi as <-. rewrite Nat.add_0_r.
    rewrite assign_ranks_notin by exact Hc.
    unfold h1, upd at 1. rewrite Nat.eqb_refl. simpl.
    destruct prev as [p|]; [|reflexivity].
    assert (Hp : ~ In p (c :: l)) by (apply Hprev; reflexivity).
    rewrite assign_ranks_notin by (simpl in Hp; tauto).
    unfold h1, upd. destruct (Nat.eqb c p) eqn:E.
    + apply Nat.eqb_eq in E. subst. simpl in Hp. tauto.
    + reflexivity.
  - simpl in Hi.
    rewrite (IH h1 (Some c) (S idx) Hnd') with (i := j) (r := r) by
      (try exact Hi; intros p Hp; injection Hp as <-; exact Hc).
    destruct j as [|j']; simpl.
    + rewrite !Hh1. destruct (Nat.eqb _ _); [reflexivity | lia].
    + destruct (nth_error l j'); [rewrite !Hh1|lia].
      destruct (Nat.eqb _ _); [reflexivity | lia].
Qed.

(** ** Theorems on [sort_ranking] *)

Lemma NoDup_sort_ranking_out (self : EmojiRanking) (h : Heap)
    (refs : list nat) (limit : Z) :
  NoDup refs -> NoDup (fst (sort_ranking self h refs limit)).
Proof.
  intros Hnd. unfold sort_ranking, py_slice_prefix. simpl.
  apply NoDup_firstn. eapply Permutation_NoDup; [apply py_sorted_perm|exact Hnd].
Qed.

(** C1: over the returned (sorted, truncated) list, the first counter gets
    rank 1 and each later one the rank of its predecessor when their totals
    are equal, and its 1-based position [index + 1] otherwise.  The
    counters of [_execute] are distinct objects. *)
Theorem sort_ranking_rank_rule (self : EmojiRanking) (h : Heap)
    (refs : list nat) (limit : Z) :
  NoDup refs ->
  forall i r,
  nth_error (fst (sort_ranking self h refs limit)) i = Some r ->
  _rank (snd (sort_ranking self h refs limit) r) =
  match i with
  | O => 1
  | S j =>
      match nth_error (fst (sort_ranking self h refs limit)) j with
      | Some p =>
          if Nat.eqb (total_count (h p)) (total_count (h r))
          then _rank (snd (sort_ranking self h refs limit) p)
          else i + 1
      | None => i + 1
      end
  end.
Proof.
  intros Hnd i r Hi.
  pose proof (NoDup_sort_ranking_out self h refs limit Hnd) as Hout.
  revert Hi Hout. unfold sort_ranking. simpl.
  set (out := py_slice_prefix _ limit). intros Hi Hout.
  rewrite (assign_ranks_spec out h None 0 Hout) with (i := i) by
    (try exact Hi; discriminate).
  destruct i as [|j]; [reflexivity|].
  destruct (nth_error out j); reflexivity.
Qed.

(** C3: [sort_ranking] keeps the first [slice_num] counters of the sorted
    order, no more, and writes no rank outside of them. *)
Theorem sort_ranking_truncates_before_ranking (self : EmojiRanking) (h : Heap)
    (refs : list nat) (limit : Z) :
  (0 <= limit)%Z ->
  fst (sort_ranking self h refs limit) =
    firstn (Z.to_nat limit)
      (py_sorted (reverse (_order self)) (fun r => total_count (h r)) refs) /\
  List.length (fst (sort_ranking self h refs limit)) =
    Nat.min (Z.to_nat limit) (List.length refs) /\
  (forall r, In r (fst (sort_ranking self h refs limit)) \/
             snd (sort_ranking self h refs limit) r = h r).
Proof.
  intros Hl.
  assert (Hfst : fst (sort_ranking self h refs limit) =
    firstn (Z.to_nat limit)
      (py_sorted (reverse (_order self)) (fun r => total_count (h r)) refs)).
  { unfold sort_ranking, py_slice_prefix. simpl.
    destruct (limit <? 0)%Z eqn:E; [apply Z.ltb_lt in E; lia|reflexivity]. }
  split; [exact Hfst|split].
  - rewrite Hfst, length_firstn.
    rewrite <- (Permutation_length (py_sorted_perm _ _ refs)). reflexivity.
  - intros r. destruct (In_dec Nat.eq_dec r (fst (sort_ranking self h refs limit)))
      as [Hin|Hnin]; [left; exact Hin|right].
    unfold sort_ranking in *. simpl in *. apply assign_ranks_notin. exact Hnin.
Qed.

(** C4: the returned list is a prefix of a stable sort of the counters by
    total, descending for [DESCENDING] and ascending for [ASCENDING]:
    a permutation, sorted, in which counters with equal totals keep their
    catalog order. *)
Theorem sort_ranking_stable_sort :
  (forall (self : EmojiRanking) (h : Heap) (refs : list nat) (limit : Z),
   exists full,
     Permutation refs full /\
     Sorted (fun a b => match _order self with
                        | DESCENDING => total_count (h b) <= total_count (h a)
                        | ASCENDING => total_count (h a) <= total_count (h b)
                        end) full /\
     (forall k, filter (fun r => Nat.eqb (total_count (h r)) k) full =
                filter (fun r => Nat.eqb (total_count (h r)) k) refs) /\
     fst (sort_ranking self h refs limit) = py_slice_prefix full limit) /\
  ranking_view (sort_ranking (cog ASCENDING) (heap_of (abcd [5;5;3;1]))
                             [0;1;2;3] 4)
  = [("D",1); ("C",2); ("A",3); ("B",3)].
Proof.
  split; [|reflexivity].
  intros self h refs limit.
  exists (py_sorted (reverse (_order self)) (fun r => total_count (h r)) refs).
  split; [apply py_sorted_perm|split; [|split]].
  - pose proof (py_sorted_sorted (reverse (_order self))
                  (fun r => total_count (h r)) refs) as Hs.
    destruct (_order self); exact Hs.
  - intros k. apply py_sorted_stable.
  - reflexivity.
Qed.

(** C9: ranking an empty catalog returns an empty list and leaves the
    store as it is, for any order and any [slice_num]; [_execute] then
    passes [slice_num = 1]. *)
Theorem sort_ranking_empty_catalog :
  (forall (self : EmojiRanking) (h : Heap) (limit : Z),
     sort_ranking self h [] limit = ([], h)) /\
  (forall rank : Z, clamp_rank rank 0 = 1%Z).
Proof.
  split.
  - intros self h limit. unfold sort_ranking, py_slice_prefix. simpl.
    rewrite firstn_nil. reflexivity.
  - intros rank. unfold clamp_rank. lia.
Qed.

(** C10: [sort_ranking] changes no counter but for its [rank], and the
    [rank] only of the counters it returns. *)
Theorem sort_ranking_frame (self : EmojiRanking) (h : Heap)
    (refs : list nat) (limit : Z) (r : nat) :
  snd (sort_ranking self h refs limit) r =
    set_rank (h r) (_rank (snd (sort_ranking self h refs limit) r)) /\
  (In r (fst (sort_ranking self h refs limit)) \/
   snd (sort_ranking self h refs limit) r = h r).
Proof.
  split.
  - apply assign_ranks_only_rank.
  - destruct (In_dec Nat.eq_dec r (fst (sort_ranking self h refs limit)))
      as [Hin|Hnin]; [left; exact Hin|right].
    apply assign_ranks_notin. exact Hnin.
Qed.

Lemma sort_ranking_rank_rule_witness :
  NoDup [0;1;2;3] /\
  ranking_view (sort_ranking (cog DESCENDING) (heap_of (abcd [5;5;3;1]))
                             [0;1;2;3] 4)
  = [("A",1); ("B",1); ("C",3); ("D",4)] /\
  _rank (snd (sort_ranking (cog DESCENDING) (heap_of (abcd [5;5;3;1]))
                           [0;1;2;3] 4) 2) = 3.
Proof.
  assert (Hnd : NoDup [0;1;2;3]) by (repeat constructor; simpl; intuition discriminate).
  split; [exact Hnd|split; [reflexivity|]].
  rewrite (sort_ranking_rank_rule (cog DESCENDING) (heap_of (abcd [5;5;3;1]))
             [0;1;2;3] 4 Hnd 2 2 eq_refl).
  reflexivity.
Defined.

Lemma sort_ranking_truncates_before_ranking_witness :
  ranking_view (sort_ranking (cog DESCENDING) (heap_of (abcd [5;5;5;1]))
                             [0;1;2;3] 2) = [("A",1); ("B",1)] /\
  List.length (fst (sort_ranking (cog DESCENDING) (heap_of (abcd [5;5;5;1]))
                                 [0;1;2;3] 2)) = 2 /\
  _rank (snd (sort_ranking (cog DESCENDING) (heap_of (abcd [5;5;5;1]))
                           [0;1;2;3] 2) 3) = 0.
Proof.
  destruct (sort_ranking_truncates_before_ranking (cog DESCENDING)
              (heap_of (abcd [5;5;5;1])) [0;1;2;3] 2 ltac:(lia))
    as [_ [Hlen Hfr]].
  split; [reflexivity|split; [rewrite Hlen; reflexivity|]].
  destruct (Hfr 3) as [Hin|Heq].
  - vm_compute in Hin. intuition discriminate.
  - rewrite Heq. reflexivity.
Defined.

(** ** Report labels *)

Lemma digit_roundtrip (k : nat) :
  k < 10 -> nat_of_ascii (ascii_of_nat (48 + k)) = 48 + k.
Proof.
  intros Hk. do 10 (destruct k as [|k]; [reflexivity|]). lia.
Qed.

Lemma fold_digits_app (acc : nat) (s1 s2 : string) :
  fold_digits acc (s1 ++ s2) = fold_digits (fold_digits acc s1) s2.
Proof. revert acc; induction s1 as [|c s1 IH]; intros acc; simpl; auto. Qed.

Lemma list_ascii_app (s1 s2 : string) :
  list_ascii_of_string (s1 ++ s2) =
  (list_ascii_of_string s1 ++ list_ascii_of_string s2)%list.
Proof. induction s1 as [|c s1 IH]; simpl; [reflexivity|rewrite IH; reflexivity]. Qed.

Lemma str_of_nat_fuel_spec (fuel n : nat) :
  n < fuel ->
  fold_digits 0 (str_of_nat_fuel fuel n) = n /\
  forallb is_digit (list_ascii_of_string (str_of_nat_fuel fuel n)) = true /\
  str_of_nat_fuel fuel n <> EmptyString.
Proof.
  revert n; induction fuel as [|f IH]; intros n Hn; [lia|].
  pose proof (Nat.mod_upper_bound n 10 ltac:(lia)) as Hm.
  pose proof (Nat.div_mod_eq n 10) as Hdm.
  cbn [str_of_nat_fuel].
  remember (n mod 10) as k eqn:Hk. remember (n / 10) as q eqn:Hq.
  assert (Hdig : is_digit (ascii_of_nat (48 + k)) = true).
  { unfold is_digit. rewrite digit_roundtrip by exact Hm.
    apply andb_true_iff; split; apply Nat.leb_le; lia. }
  destruct (Nat.eqb q 0) eqn:Hq0.
  - apply Nat.eqb_eq in Hq0. subst q.
    cbn [fold_digits list_ascii_of_string forallb].
    rewrite digit_roundtrip, Hdig by exact Hm.
    repeat split; [lia | discriminate].
  - apply Nat.eqb_neq in Hq0.
    assert (Hlt : q < f).
    { assert (n / 10 < n) by (apply Nat.div_lt; lia). lia. }
    destruct (IH q Hlt) as [H1 [H2 H3]].
    rewrite fold_digits_app, H1. cbn [fold_digits].
    rewrite digit_roundtrip by exact Hm.
    split; [lia|split].
    + rewrite list_ascii_app, forallb_app, H2.
      cbn [list_ascii_of_string forallb]. rewrite Hdig. reflexivity.
    + destruct (str_of_nat_fuel f q); [congruence|discriminate].
Qed.

Lemma leading_number_digits (acc : nat) (s rest : string) :
  forallb is_digit (list_ascii_of_string s) = true ->
  leading_number acc (s ++ rest) = leading_number (fold_digits acc s) rest.
Proof.
  revert acc; induction s as [|c s IH]; intros acc Hd; simpl in *; [reflexivity|].
  apply andb_true_iff in Hd as [Hc Hs]. rewrite Hc. apply IH. exact Hs.
Qed.

Lemma leading_number_str_of_nat (n : nat) (c : ascii) (rest : string) :
  is_digit c = false ->
  leading_number 0 (str_of_nat n ++ String c rest) = n.
Proof.
  intros Hc. destruct (str_of_nat_fuel_spec (S n) n ltac:(lia)) as [H1 [H2 _]].
  unfold str_of_nat. rewrite leading_number_digits by exact H2.
  rewrite H1. simpl. rewrite Hc. reflexivity.
Qed.

(** [_get_rank_str] can be read back: the leading number of the label is
    the rank, so two different ranks never share a label. *)
Theorem get_rank_str_roundtrip (rank : nat) :
  leading_number 0 (_get_rank_str rank) = rank.
Proof.
  unfold _get_rank_str.
  destruct (Nat.eqb rank 1) eqn:E1; [apply Nat.eqb_eq in E1; subst; reflexivity|].
  destruct (Nat.eqb rank 2) eqn:E2; [apply Nat.eqb_eq in E2; subst; reflexivity|].
  destruct (Nat.eqb rank 3) eqn:E3; [apply Nat.eqb_eq in E3; subst; reflexivity|].
  apply leading_number_str_of_nat. reflexivity.
Qed.

Theorem get_rank_str_injective (r1 r2 : nat) :
  _get_rank_str r1 = _get_rank_str r2 -> r1 = r2.
Proof.
  intros H. rewrite <- (get_rank_str_roundtrip r1), <- (get_rank_str_roundtrip r2), H.
  reflexivity.
Qed.

(** [_get_times_str] can be read back the same way. *)
Theorem get_times_str_roundtrip (count : nat) :
  leading_number 0 (_get_times_str count) = count.
Proof.
  unfold _get_times_str.
  destruct (Nat.eqb count 1) eqn:E1; [apply Nat.eqb_eq in E1; subst; reflexivity|].
  apply leading_number_str_of_nat. reflexivity.
Qed.

(** ** Legacy arguments *)

Lemma str_contains_cons (n : string) (x : ascii) (t : string) :
  str_contains n (String x t) = String.prefix n (String x t) || str_contains n t.
Proof. reflexivity. Qed.

Lemma contains_eq_cons (x : ascii) (t : string) :
  str_contains "=" (String x t) =
  (if ascii_dec x "=" then true else false) || str_contains "=" t.
Proof.
  rewrite str_contains_cons. f_equal. cbn [String.prefix].
  destruct (ascii_dec "=" x), (ascii_dec x "="); try congruence.
  destruct t; reflexivity.
Qed.

Lemma partition_at_eq (k v : string) :
  str_contains "=" k = false ->
  partition_at "=" (k ++ String "=" v) = (k, String "=" EmptyString, v).
Proof.
  induction k as [|x k IH]; intros Hk; simpl; [reflexivity|].
  rewrite contains_eq_cons in Hk. destruct (ascii_dec x "="); [discriminate|].
  rewrite IH by exact Hk. reflexivity.
Qed.

Lemma partition_at_found (a : string) :
  str_contains "=" a = true ->
  exists k v, a = (k ++ String "=" v)%string /\ str_contains "=" k = false /\
              partition_at "=" a = (k, String "=" EmptyString, v).
Proof.
  induction a as [|x a IH]; intros Ha; [discriminate|].
  rewrite contains_eq_cons in Ha. simpl.
  destruct (ascii_dec x "=") as [->|Hx].
  - exists EmptyString, a. repeat split.
  - destruct (IH Ha) as [k [v [-> [Hk Hp]]]]. rewrite Hp.
    exists (String x k), v. repeat split.
    rewrite contains_eq_cons. destruct (ascii_dec x "="); [congruence|exact Hk].
Qed.

Lemma dict_get_set_same (d : Dict) (k v : string) :
  dict_get (dict_set d k v) k = Some v.
Proof.
  induction d as [|[k' v'] d IH]; simpl; [rewrite String.eqb_refl; reflexivity|].
  destruct (String.eqb k k') eqn:E; simpl; [rewrite String.eqb_refl; reflexivity|].
  rewrite E. exact IH.
Qed.

Lemma dict_get_set_other (d : Dict) (k k2 v : string) :
  k <> k2 -> dict_get (dict_set d k2 v) k = dict_get d k.
Proof.
  intros Hne. induction d as [|[k' v'] d IH]; simpl.
  - apply String.eqb_neq in Hne. rewrite Hne. reflexivity.
  - destruct (String.eqb k2 k') eqn:E; simpl.
    + apply String.eqb_eq in E. subst k'.
      apply String.eqb_neq in Hne. rewrite Hne. reflexivity.
    + destruct (String.eqb k k'); [reflexivity|exact IH].
Qed.

Lemma parse_legacy_step_other (d : Dict) (k a : string) :
  (forall v', a <> (k ++ String "=" v')%string) ->
  str_contains "=" k = false ->
  dict_get (parse_legacy_step d a) k = dict_get d k.
Proof.
  intros Ha Hk. unfold parse_legacy_step.
  destruct (str_contains "=" a) eqn:Hc; simpl; [|reflexivity].
  destruct (partition_at_found a Hc) as [k2 [v2 [Heq [_ Hp]]]]. rewrite Hp.
  destruct (String.eqb k2 "") ; [reflexivity|].
  apply dict_get_set_other. intros ->. apply (Ha v2). exact Heq.
Qed.

(** [_parse_legacy_args]: the value of a key [k] is the text after the first
    [=] of the last argument [k=...]; later arguments with other keys, or
    without [=], leave it alone. *)
Theorem parse_legacy_args_last_wins (args rest : list string) (k v : string) :
  k <> EmptyString ->
  str_contains "=" k = false ->
  Forall (fun a => forall v', a <> (k ++ String "=" v')%string) rest ->
  dict_get (_parse_legacy_args (args ++ (k ++ String "=" v)%string :: rest)) k
  = Some v.
Proof.
  intros Hne Hk Hrest. unfold _parse_legacy_args.
  rewrite fold_left_app. simpl.
  assert (Hstep : dict_get (parse_legacy_step (fold_left parse_legacy_step args [])
                              (k ++ String "=" v)) k = Some v).
  { unfold parse_legacy_step.
    assert (Hc : str_contains "=" (k ++ String "=" v) = true).
    { apply str_contains_spec. exists k, v. reflexivity. }
    rewrite Hc. simpl. rewrite partition_at_eq by exact Hk.
    destruct (String.eqb k "") eqn:E; [apply String.eqb_eq in E; congruence|].
    apply dict_get_set_same. }
  revert Hstep. generalize (parse_legacy_step (fold_left parse_legacy_step args [])
                              (k ++ String "=" v)).
  induction Hrest as [|a rest Ha _ IH]; intros d Hd; simpl; [exact Hd|].
  apply IH. rewrite parse_legacy_step_other; assumption.
Qed.

Lemma parse_legacy_args_last_wins_witness :
  dict_get (_parse_legacy_args ["order=descending"; "rank"; "order=a=b"; "rank=5"])
           "order" = Some "a=b".
Proof.
  apply (parse_legacy_args_last_wins ["order=descending"; "rank"] ["rank=5"]
           "order" "a=b").
  - discriminate.
  - reflexivity.
  - constructor; [|constructor]. intros v' H.
    apply (f_equal (String.substring 0 5)) in H. discriminate H.
Defined.

(** ** Channels *)

Lemma Permutation_concat_lists {A} (l1 l2 : list (list A)) :
  Permutation l1 l2 -> Permutation (List.concat l1) (List.concat l2).
Proof.
  intros Hp.
  assert (Hid : forall l : list (list A), List.concat l = flat_map (fun x => x) l).
  { intros l. rewrite flat_map_concat_map, map_id. reflexivity. }
  rewrite !Hid. apply Permutation_flat_map. exact Hp.
Qed.



(** The per-channel loop counts exactly the messages of the readable
    channels, as one batch; a channel refusing its history contributes
    nothing. *)
Theorem count_channels_concat (self : EmojiRanking) (history : History)
    (cs : list _EmojiCounter) (channels : list Channel) :
  count_channels self history cs channels =
  count_emojis self cs
    (List.concat (map (fun ch => match history ch with
                                 | Some ms => ms
                                 | None => []
                                 end) channels)).
Proof.
  unfold count_channels. revert cs.
  induction channels as [|ch chs IH]; intros cs; simpl; [reflexivity|].
  rewrite IH. unfold count_emojis at 3. rewrite fold_left_app.
  destruct (history ch); reflexivity.
Qed.

(** The order in which channel ids are given does not change the counts. *)
Theorem execute_counts_channel_order (self : EmojiRanking) (g : Guild)
    (ids1 ids2 : list Z) (history : History) :
  Permutation ids1 ids2 ->
  execute_counts self g ids1 history = execute_counts self g ids2 history.
Proof.
  intros Hp. unfold execute_counts. rewrite !count_channels_concat.
  rewrite !count_emojis_map. apply map_ext. intros c.
  apply fold_left_perm_comm; [intros; apply count_message_comm|].
  apply Permutation_concat_lists, Permutation_map.
  unfold select_channels. rewrite (Permutation_length Hp).
  destruct (Nat.ltb 0 (List.length ids2)); [|reflexivity].
  apply Permutation_flat_map, Permutation_map. exact Hp.
Qed.

Lemma execute_counts_channel_order_witness :
  execute_counts cog_no_bots
    (mkGuild [mkChannel 1 true; mkChannel 2 true] [mkEmoji 1 "A"; mkEmoji 2 "B"])
    [1; 2]%Z (fun ch => if Z.eqb (ch_id ch) 1 then Some [msgA] else Some [msgB])
  = execute_counts cog_no_bots
    (mkGuild [mkChannel 1 true; mkChannel 2 true] [mkEmoji 1 "A"; mkEmoji 2 "B"])
    [2; 1]%Z (fun ch => if Z.eqb (ch_id ch) 1 then Some [msgA] else Some [msgB]).
Proof. apply execute_counts_channel_order. apply perm_swap. Defined.

(** ** Ranks on the leaderboard *)

Lemma StronglySorted_firstn {A} (R : A -> A -> Prop) (n : nat) (l : list A) :
  StronglySorted R l -> StronglySorted R (firstn n l).
Proof.
  revert l; induction n as [|n IH]; intros l Hs; [constructor|].
  destruct l as [|x l]; [constructor|]. simpl.
  inversion Hs; subst. constructor; [apply IH; assumption|].
  rewrite Forall_forall in *. intros y Hy. apply H2.
  rewrite <- (firstn_skipn n l). apply in_or_app. left. exact Hy.
Qed.

Lemma StronglySorted_nth {A} (R : A -> A -> Prop) (l : list A) :
  StronglySorted R l ->
  forall i j a b, i < j -> nth_error l i = Some a -> nth_error l j = Some b -> R a b.
Proof.
  induction 1 as [|x l _ IH Hx]; intros i j a b Hij Ha Hb;
    [destruct i; discriminate|].
  destruct j as [|j]; [lia|]. destruct i as [|i].
  - simpl in Ha, Hb. injection Ha as <-.
    rewrite Forall_forall in Hx. apply Hx. eapply nth_error_In. exact Hb.
  - simpl in Ha, Hb. apply (IH i j); auto. lia.
Qed.

Lemma ordered_trans (rev : bool) (key : nat -> nat) :
  forall a b c, ordered rev key a b -> ordered rev key b c -> ordered rev key a c.
Proof. intros a b c. unfold ordered. destruct rev; lia. Qed.

Section RankFacts.

Variables (self : EmojiRanking) (h : Heap) (refs : list nat) (limit : Z).
Hypothesis Hnd : NoDup refs.

Local Abbreviation out := (fst (sort_ranking self h refs limit)).
Local Abbreviation h' := (snd (sort_ranking self h refs limit)).
Local Abbreviation key := (fun r => total_count (h r)).

Lemma rank_at (i r : nat) :
  nth_error out i = Some r ->
  _rank (h' r) =
  match i with
  | O => 1
  | S j => match nth_error out j with
           | Some p => if Nat.eqb (key p) (key r) then _rank (h' p) else i + 1
           | None => i + 1
           end
  end.
Proof.
  intros Hi.
  pose proof (NoDup_sort_ranking_out self h refs limit Hnd) as Hout.
  revert Hi Hout. unfold sort_ranking. simpl.
  set (l := py_slice_prefix _ limit). intros Hi Hout.
  rewrite (assign_ranks_spec l h None 0 Hout) with (i := i) by
    (try exact Hi; discriminate).
  destruct i as [|j]; [reflexivity|].
  destruct (nth_error l j); reflexivity.
Qed.

Lemma nth_error_prev (j r : nat) :
  nth_error out (S j) = Some r -> exists p, nth_error out j = Some p.
Proof.
  intros H. destruct (nth_error out j) as [p|] eqn:E; [exists p; reflexivity|].
  apply nth_error_None in E.
  assert (S j < List.length out) by (apply nth_error_Some; congruence). lia.
Qed.

Lemma rank_bounds (i r : nat) :
  nth_error out i = Some r -> 1 <= _rank (h' r) <= i + 1.
Proof.
  revert r; induction i as [|j IH]; intros r Hi; rewrite (rank_at _ _ Hi); [lia|].
  destruct (nth_error_prev j r Hi) as [p Hp]. rewrite Hp.
  destruct (Nat.eqb (key p) (key r)); [specialize (IH p Hp)|]; lia.
Qed.

Lemma rank_step_mono (j p r : nat) :
  nth_error out j = Some p -> nth_error out (S j) = Some r ->
  _rank (h' p) <= _rank (h' r).
Proof.
  intros Hp Hr. rewrite (rank_at _ _ Hr), Hp.
  pose proof (rank_bounds j p Hp).
  destruct (Nat.eqb (key p) (key r)); lia.
Qed.

Lemma out_sorted :
  forall i j a b, i < j -> nth_error out i = Some a -> nth_error out j = Some b ->
  ordered (reverse (_order self)) key a b.
Proof.
  apply StronglySorted_nth. unfold sort_ranking, py_slice_prefix. simpl.
  apply StronglySorted_firstn, Sorted_StronglySorted;
    [intros a b c; apply ordered_trans | apply py_sorted_sorted].
Qed.

Lemma eq_totals_eq_rank (i j r1 r2 : nat) :
  i <= j -> nth_error out i = Some r1 -> nth_error out j = Some r2 ->
  key r1 = key r2 -> _rank (h' r1) = _rank (h' r2).
Proof.
  revert r2; induction j as [|j IH]; intros r2 Hij H1 H2 Hk.
  - assert (i = 0) by lia. subst. congruence.
  - destruct (Nat.eq_dec i (S j)) as [->|Hne]; [congruence|].
    destruct (nth_error_prev j r2 H2) as [p Hp].
    assert (Hkp : key p = key r1).
    { destruct (Nat.eq_dec i j) as [->|Hij'];
        [congruence|].
      pose proof (out_sorted i j r1 p ltac:(lia) H1 Hp) as Ha.
      pose proof (out_sorted j (S j) p r2 ltac:(lia) Hp H2) as Hb.
      unfold ordered in Ha, Hb. simpl in Ha, Hb, Hk.
      destruct (reverse (_order self)); lia. }
    rewrite (IH p ltac:(lia) H1 Hp (eq_sym Hkp)).
    rewrite (rank_at _ _ H2), Hp.
    simpl in Hkp, Hk. rewrite Hkp, Hk, Nat.eqb_refl. reflexivity.
Qed.

Lemma neq_totals_gt_rank (i j r1 r2 : nat) :
  i < j -> nth_error out i = Some r1 -> nth_error out j = Some r2 ->
  key r1 <> key r2 -> i + 1 < _rank (h' r2).
Proof.
  revert r2; induction j as [|j IH]; intros r2 Hij H1 H2 Hk; [lia|].
  destruct (nth_error_prev j r2 H2) as [p Hp].
  rewrite (rank_at _ _ H2), Hp.
  destruct (Nat.eqb (key p) (key r2)) eqn:E; [|lia].
  apply Nat.eqb_eq in E.
  destruct (Nat.eq_dec i j) as [->|Hne]; [congruence|].
  apply (IH p); [lia | exact H1 | exact Hp | congruence].
Qed.

(** The ranks of the returned counters start at 1, never exceed the
    1-based position, and never decrease along the list. *)
Theorem leaderboard_ranks_monotone (i j r1 r2 : nat) :
  i <= j ->
  nth_error (fst (sort_ranking self h refs limit)) i = Some r1 ->
  nth_error (fst (sort_ranking self h refs limit)) j = Some r2 ->
  1 <= _rank (snd (sort_ranking self h refs limit) r1) <= i + 1 /\
  _rank (snd (sort_ranking self h refs limit) r1)
  <= _rank (snd (sort_ranking self h refs limit) r2).
Proof.
  intros Hij H1 H2. split; [exact (rank_bounds i r1 H1)|].
  revert r2 H2; induction j as [|j IH]; intros r2 H2.
  - assert (i = 0) by lia. subst. rewrite H1 in H2. injection H2 as <-. lia.
  - destruct (Nat.eq_dec i (S j)) as [->|Hne];
      [rewrite H1 in H2; injection H2 as <-; lia|].
    destruct (nth_error_prev j r2 H2) as [p Hp].
    specialize (IH ltac:(lia) p Hp).
    pose proof (rank_step_mono j p r2 Hp H2). lia.
Qed.

(** Two returned counters share a rank exactly when their totals are
    equal. *)
Theorem leaderboard_same_rank_iff_same_total (i j r1 r2 : nat) :
  nth_error (fst (sort_ranking self h refs limit)) i = Some r1 ->
  nth_error (fst (sort_ranking self h refs limit)) j = Some r2 ->
  (_rank (snd (sort_ranking self h refs limit) r1)
   = _rank (snd (sort_ranking self h refs limit) r2) <->
   total_count (h r1) = total_count (h r2)).
Proof.
  assert (Hdir : forall i j r1 r2, i <= j ->
            nth_error out i = Some r1 -> nth_error out j = Some r2 ->
            (_rank (h' r1) = _rank (h' r2) <-> key r1 = key r2)).
  { intros i' j' a b Hij Ha Hb. split.
    - intros Hr. destruct (Nat.eq_dec (key a) (key b)) as [E|E]; [exact E|].
      destruct (Nat.eq_dec i' j') as [->|Hne]; [congruence|].
      pose proof (rank_bounds i' a Ha).
      pose proof (neq_totals_gt_rank i' j' a b ltac:(lia) Ha Hb E). lia.
    - apply (eq_totals_eq_rank i' j'); assumption. }
  intros H1 H2. destruct (Nat.le_ge_cases i j) as [Hij|Hji].
  - exact (Hdir i j r1 r2 Hij H1 H2).
  - pose proof (Hdir j i r2 r1 Hji H2 H1) as Hd. simpl in Hd.
    split; intros E; symmetry; apply Hd; symmetry; exact E.
Qed.

End RankFacts.

Lemma NoDup_0123 : NoDup [0;1;2;3].
Proof. repeat constructor; simpl; intuition discriminate. Qed.

Lemma leaderboard_ranks_monotone_witness :
  1 <= _rank (snd (sort_ranking (cog DESCENDING) (heap_of (abcd [5;5;3;1]))
                               [0;1;2;3] 4) 1) <= 2 /\
  _rank (snd (sort_ranking (cog DESCENDING) (heap_of (abcd [5;5;3;1]))
                           [0;1;2;3] 4) 1)
  <= _rank (snd (sort_ranking (cog DESCENDING) (heap_of (abcd [5;5;3;1]))
                              [0;1;2;3] 4) 3).
Proof.
  exact (leaderboard_ranks_monotone (cog DESCENDING) (heap_of (abcd [5;5;3;1]))
           [0;1;2;3] 4 NoDup_0123 1 3 1 3 ltac:(lia) eq_refl eq_refl).
Defined.

Lemma leaderboard_same_rank_iff_same_total_witness :
  _rank (snd (sort_ranking (cog ASCENDING) (heap_of (abcd [5;5;3;1]))
                           [0;1;2;3] 4) 0)
  = _rank (snd (sort_ranking (cog ASCENDING) (heap_of (abcd [5;5;3;1]))
                             [0;1;2;3] 4) 1).
Proof.
  apply (leaderboard_same_rank_iff_same_total (cog ASCENDING)
           (heap_of (abcd [5;5;3;1])) [0;1;2;3] 4 NoDup_0123 2 3 0 1
           eq_refl eq_refl).
  reflexivity.
Defined.

(** ** Leaderboard size *)

(** [_execute] clamps the requested size into [1, n] for a non-empty
    catalog of [n] emojis, and [sort_ranking] then returns exactly that many
    counters. *)
Theorem execute_leaderboard_size (self : EmojiRanking) (h : Heap)
    (refs : list nat) (rank : Z) :
  1 <= List.length refs ->
  (1 <= clamp_rank rank (List.length refs) <= Z.of_nat (List.length refs))%Z /\
  List.length (fst (sort_ranking self h refs (clamp_rank rank (List.length refs))))
  = Z.to_nat (clamp_rank rank (List.length refs)).
Proof.
  intros Hn.
  assert (Hc : (1 <= clamp_rank rank (List.length refs) <= Z.of_nat (List.length refs))%Z)
    by (unfold clamp_rank; lia).
  split; [exact Hc|].
  unfold sort_ranking, py_slice_prefix. simpl.
  destruct (clamp_rank rank (List.length refs) <? 0)%Z eqn:E;
    [apply Z.ltb_lt in E; lia|].
  rewrite length_firstn, <- (Permutation_length (py_sorted_perm _ _ refs)). lia.
Qed.

Lemma execute_leaderboard_size_witness :
  List.length (fst (sort_ranking (cog DESCENDING) (heap_of (abcd [5;5;3;1]))
                     [0;1;2;3] (clamp_rank 10 4))) = 4.
Proof.
  destruct (execute_leaderboard_size (cog DESCENDING) (heap_of (abcd [5;5;3;1]))
              [0;1;2;3] 10 ltac:(simpl; lia)) as [_ H].
  exact H.
Defined.

(** ** Slash-command arguments *)

Lemma dict_get_set_arg_other (d : Dict) (k k2 : string) (v : option PyValue) :
  k <> k2 -> dict_get (set_arg d k2 v) k = dict_get d k.
Proof.
  intros Hne. unfold set_arg.
  destruct v as [[[|c s]|z|b]|]; try reflexivity; apply dict_get_set_other; exact Hne.
Qed.




(** A slash command sorts ascending exactly when its [order] option is
    ["ascending"]; without it the order is descending. *)
Theorem slash_args_order (channel before after order : option string)
    (rank : option Z) (bot : option bool) (user : option string) :
  order_of_args (slash_args channel before after order rank bot user) =
  match order with
  | Some o => parse_order o
  | None => DESCENDING
  end.
Proof.
  unfold order_of_args, slash_args.
  rewrite dict_get_set_arg_other by discriminate.
  destruct bot; [rewrite dict_get_set_arg_other by discriminate|];
  (destruct rank; [rewrite dict_get_set_arg_other by discriminate|]);
  (destruct order as [[|c o]|];
   [ cbn [option_map set_arg]
   | cbn [option_map set_arg]; rewrite dict_get_set_same; reflexivity
   | cbn [option_map set_arg] ]);
  rewrite ?dict_get_set_arg_other by discriminate; reflexivity.
Qed.



(** ** Token selection *)

(** [bot.py] runs with [DISCORD_TOKEN] when it is set and non-empty, else
    with a non-empty [DISCORD_BOT_TOKEN], and never with an empty token. *)
Theorem bot_main_token (environ : Dict) (t : string) :
  bot_main environ = BotRun t <->
  t <> EmptyString /\
  (dict_get environ "DISCORD_TOKEN" = Some t \/
   ((dict_get environ "DISCORD_TOKEN" = None \/
     dict_get environ "DISCORD_TOKEN" = Some EmptyString) /\
    dict_get environ "DISCORD_BOT_TOKEN" = Some t)).
Proof.
  unfold bot_main.
  destruct (dict_get environ "DISCORD_TOKEN") as [[|c s]|] eqn:E1; simpl;
  [destruct (dict_get environ "DISCORD_BOT_TOKEN") as [[|c' s']|] eqn:E2 | |
   destruct (dict_get environ "DISCORD_BOT_TOKEN") as [[|c' s']|] eqn:E2];
  split; intros H; try discriminate;
  try (injection H as <-; intuition congruence);
  try (destruct H as [Ht [H|[_ H]]]; congruence).
  destruct H as [_ [H|[[H|H] _]]]; congruence.
Qed.

(** ** Keys of the legacy argument dict *)

Lemma dict_set_keys_in (d : Dict) (k v x : string) :
  In x (map fst (dict_set d k v)) <-> x = k \/ In x (map fst d).
Proof.
  induction d as [|[k' v'] d IH]; simpl; [intuition congruence|].
  destruct (String.eqb k k') eqn:E; simpl.
  - apply String.eqb_eq in E. subst. intuition congruence.
  - rewrite IH. intuition congruence.
Qed.

Lemma dict_set_nodup (d : Dict) (k v : string) :
  NoDup (map fst d) -> NoDup (map fst (dict_set d k v)).
Proof.
  induction d as [|[k' v'] d IH]; intros Hnd; simpl; [repeat constructor; auto|].
  inversion Hnd as [|? ? Hk' Hnd']; subst.
  destruct (String.eqb k k') eqn:E; simpl.
  - apply String.eqb_eq in E. subst. constructor; assumption.
  - constructor; [|apply IH; exact Hnd'].
    rewrite dict_set_keys_in. intros [H|H]; [|contradiction].
    subst. rewrite String.eqb_refl in E. discriminate.
Qed.

Lemma dict_set_forall (P : string -> Prop) (d : Dict) (k v : string) :
  P k -> Forall (fun kv => P (fst kv)) d ->
  Forall (fun kv => P (fst kv)) (dict_set d k v).
Proof.
  intros Hk Hd. induction Hd as [|[k' v'] d Hx Hd' IH]; simpl.
  - repeat constructor. exact Hk.
  - destruct (String.eqb k k'); constructor; simpl; auto.
Qed.

(** The dict [_parse_legacy_args] returns has unique keys, none of them
    empty and none containing [=]. *)
Theorem parse_legacy_args_keys (raw_args : list string) :
  NoDup (map fst (_parse_legacy_args raw_args)) /\
  Forall (fun kv => fst kv <> EmptyString /\ str_contains "=" (fst kv) = false)
         (_parse_legacy_args raw_args).
Proof.
  unfold _parse_legacy_args.
  assert (Hinit : NoDup (map fst ([] : Dict)) /\
          Forall (fun kv => fst kv <> EmptyString /\ str_contains "=" (fst kv) = false)
                 ([] : Dict)) by (split; constructor).
  revert Hinit. generalize ([] : Dict).
  induction raw_args as [|a args IH]; intros d [Hnd Hf]; simpl; [tauto|].
  apply IH. unfold parse_legacy_step.
  destruct (str_contains "=" a) eqn:Hc; simpl; [|tauto].
  destruct (partition_at_found a Hc) as [k [v [_ [Hk Hp]]]]. rewrite Hp.
  destruct (String.eqb k "") eqn:E; [tauto|].
  apply String.eqb_neq in E.
  split; [apply dict_set_nodup; exact Hnd|].
  apply (dict_set_forall (fun x => x <> EmptyString /\ str_contains "=" x = false));
    [split; assumption | exact Hf].
Qed.
